(** * Nur Natur asset tools: a shallow embedding of
    [src/utils/image_generator.py] (the resumable, anchor-chaining batch
    generator) and [src/utils/optimize_assets.py] (the PNG -> WebP walk).

    The file system is a finite map from path strings to byte strings plus
    the set of directories; path strings are taken as canonical (pathlib's
    normalisation is not modelled).  Everything the scripts do to the outside
    world (provider calls, HTTP fetches, writes, sleeps, prints) is recorded
    in an event log, so that properties about calls and pauses can be stated
    on the log. *)

From stdpp Require Import base gmap strings list.
From Stdlib Require Import Ascii String ZArith Lia Sorting.Sorted.

Local Open Scope nat_scope.

(* ------------------------------------------------------------------ *)
(** ** Python string helpers *)

(** Characters for which Python's [str.isspace] holds, restricted to
    ASCII: \t \n \v \f \r, \x1c-\x1f and the space. *)
Definition is_space (c : ascii) : bool :=
  let n := nat_of_ascii c in
  ((9 <=? n) && (n <=? 13)) || ((28 <=? n) && (n <=? 32)).

Fixpoint lstrip_l (l : list ascii) : list ascii :=
  match l with
  | [] => []
  | c :: l' => if is_space c then lstrip_l l' else l
  end.

(** [str.strip()] with no argument. *)
Definition strip (s : string) : string :=
  string_of_list_ascii (rev (lstrip_l (rev (lstrip_l (list_ascii_of_string s))))).

(** [s.startswith(p)]. *)
Definition startswith (p s : string) : bool := String.prefix p s.

(** [s.endswith(suf)]. *)
Definition endswith (suf s : string) : bool :=
  String.prefix (string_of_list_ascii (rev (list_ascii_of_string suf)))
                (string_of_list_ascii (rev (list_ascii_of_string s))).

(** [str.lower()] on ASCII letters. *)
Definition lower_char (c : ascii) : ascii :=
  let n := nat_of_ascii c in
  if (65 <=? n) && (n <=? 90) then ascii_of_nat (n + 32) else c.

Definition lower (s : string) : string :=
  string_of_list_ascii (map lower_char (list_ascii_of_string s)).

(* ------------------------------------------------------------------ *)
(** ** World: file system, events, errors *)

Definition bytes := list Byte.byte.

(** Outcomes the scripts can end in.  [ConfigurationError] is the
    [SystemExit] raised by the precondition checks, [ProviderError] any
    exception of [client.run] / [requests] / the final [RuntimeError] of
    [run_flux], [IOError] an [OSError] of the file system. *)
Inductive err := ConfigurationError | ProviderError | IOError.

Inductive event :=
  | ECall (prompt : string) (input_image : string) (aspect_ratio : string)
  | EFetch (url : string)
  | EWrite (path : string) (data : bytes)
  | ESleep (ms : Z)
  | EMkdir (path : string)
  | EPrint (msg : string).

Record state := mkState {
  fs : gmap string bytes;
  dirs : gset string;
  log : list event
}.

Inductive res (A : Type) := Ok (a : A) | Err (e : err).
Arguments Ok {A} a.
Arguments Err {A} e.

(** A state and exception monad: a raised exception keeps the effects
    performed before it. *)
Definition M (A : Type) := state -> res A * state.

Definition retM {A} (a : A) : M A := fun s => (Ok a, s).
Definition raise {A} (e : err) : M A := fun s => (Err e, s).
Definition bindM {A B} (m : M A) (k : A -> M B) : M B :=
  fun s => match m s with
           | (Ok a, s') => k a s'
           | (Err e, s') => (Err e, s')
           end.

Notation "'do!' x <- m 'in' k" := (bindM m (fun x => k))
  (at level 200, x name, m at level 100, k at level 200).

Definition emit (e : event) : M unit :=
  fun s => (Ok tt, mkState (fs s) (dirs s) (log s ++ [e])).

Definition get : M state := fun s => (Ok s, s).

(** [Path.exists()]: a file or a directory. *)
Definition path_exists (p : string) (s : state) : bool :=
  bool_decide (is_Some (fs s !! p)) || bool_decide (p ∈ dirs s).

(** [Path.write_bytes]. *)
Definition write_bytes (p : string) (b : bytes) : M unit :=
  fun s => if bool_decide (p ∈ dirs s) then (Err IOError, s)
           else (Ok tt, mkState (<[p:=b]> (fs s)) (dirs s) (log s ++ [EWrite p b])).

(** [Path.mkdir(exist_ok=True)]: fails with [FileExistsError] when a
    non-directory already sits at the path. *)
Definition mkdir_exist_ok (p : string) : M unit :=
  fun s => if bool_decide (is_Some (fs s !! p)) then (Err IOError, s)
           else if bool_decide (p ∈ dirs s) then (Ok tt, s)
           else (Ok tt, mkState (fs s) ({[p]} ∪ dirs s) (log s ++ [EMkdir p])).

(* ------------------------------------------------------------------ *)
(** ** [image_generator.py] *)

(** Shape of the value returned by [client.run], as [run_flux] probes it. *)
Inductive presult :=
  | RBytes (b : bytes)            (** [isinstance(result, bytes)] *)
  | RStr (s : string)             (** [isinstance(result, str)] *)
  | RReadable (r : option bytes)  (** [hasattr(result, "read")]; [None]: [read()] raised *)
  | ROther.

Inductive call_outcome := Raised | Returned (r : presult).

(** What [requests.get(url, timeout=60)] gives back. *)
Inductive fetch_outcome := NetworkError | Response (status_code : Z) (content : bytes).

(** [resp.raise_for_status()] raises for the 4xx and 5xx codes only. *)
Definition raise_for_status (status_code : Z) : bool :=
  (400 <=? status_code)%Z && (status_code <? 600)%Z.

(** The module-level token check (lines 26-32): [if not API_TOKEN] rejects
    an unset or empty variable; only afterwards is the token stripped. *)
Definition load_api_token (env : option string) : res string :=
  match env with
  | None => Err ConfigurationError
  | Some t => if String.eqb t "" then Err ConfigurationError else Ok (strip t)
  end.

Record row := mkRow { filename : string; prompt : string }.

Definition RATE_LIMIT_MS : Z := 1500.   (** [RATE_LIMIT_SEC = 1.5] *)
Definition ASPECT_RATIO : string := "16:9".

Section Driver.

(** Directory of the script ([SCRIPT_DIR]). *)
Variable SCRIPT_DIR : string.
(** The remote model: answer of the [n]-th interaction (the length of the
    event log when the call is made) to a prompt, input image and aspect
    ratio.  Indexing by time lets the provider answer differently at every
    call. *)
Variable provider : nat -> string -> bytes -> string -> call_outcome.
(** The network: answer of [requests.get] at a given time. *)
Variable fetch : nat -> string -> fetch_outcome.

Definition ANCHOR_PATH : string := SCRIPT_DIR ++ "/anchor.png".
Definition OUT_DIR : string := SCRIPT_DIR ++ "/generated".

(** [OUT_DIR / f"{fname}.png"] *)
Definition out_path (fname : string) : string := OUT_DIR ++ "/" ++ fname ++ ".png".

(** [img_path.open("rb")] *)
Definition open_rb (p : string) : M bytes :=
  fun s => match fs s !! p with
           | Some b => (Ok b, s)
           | None => (Err IOError, s)
           end.

(** [client.run(MODEL, input={"prompt": .., "input_image": .., "aspect_ratio": "16:9"})] *)
Definition client_run (prompt : string) (img_path : string) (img : bytes) : M presult :=
  fun s =>
    let s' := mkState (fs s) (dirs s) (log s ++ [ECall prompt img_path ASPECT_RATIO]) in
    match provider (List.length (log s)) prompt img ASPECT_RATIO with
    | Raised => (Err ProviderError, s')
    | Returned r => (Ok r, s')
    end.

(** [requests.get(url, timeout=60)] *)
Definition requests_get (url : string) : M fetch_outcome :=
  fun s => (Ok (fetch (List.length (log s)) url),
            mkState (fs s) (dirs s) (log s ++ [EFetch url])).

(** Lines 55-63 of [run_flux]. *)
Definition extract_bytes (result : presult) : M bytes :=
  match result with
  | RBytes b => retM b
  | RStr u =>
      if startswith "http" u then
        do! resp <- requests_get u in
        match resp with
        | NetworkError => raise ProviderError
        | Response code content =>
            if raise_for_status code then raise ProviderError else retM content
        end
      else raise ProviderError        (* a str has no [read] *)
  | RReadable (Some b) => retM b
  | RReadable None => raise ProviderError
  | ROther => raise ProviderError     (* RuntimeError("Unexpected result type") *)
  end.

Definition run_flux (prompt : string) (img_path : string) : M bytes :=
  do! img <- open_rb img_path in
  do! result <- client_run prompt img_path img in
  extract_bytes result.

(** One iteration of the loop of [main] (lines 77-86); returns the new
    [last_img_path]. *)
Definition step (last_img_path : string) (r : row) : M string :=
  let fname := strip (filename r) in
  let prompt := strip (prompt r) in
  let out := out_path fname in
  do! s <- get in
  if path_exists out s then retM out
  else
    do! img_bytes <- run_flux prompt last_img_path in
    do! _ <- write_bytes out img_bytes in
    do! _ <- emit (ESleep RATE_LIMIT_MS) in
    retM out.

Fixpoint loop (last_img_path : string) (rows : list row) : M string :=
  match rows with
  | [] => retM last_img_path
  | r :: rs => do! p <- step last_img_path r in loop p rs
  end.

(** [main()]; [rows] is [list(csv.DictReader(CSV_PATH.open()))]. *)
Definition main (rows : list row) : M unit :=
  do! s <- get in
  if negb (path_exists ANCHOR_PATH s) then raise ConfigurationError else
  do! _ <- mkdir_exist_ok OUT_DIR in
  match rows with
  | [] => raise ConfigurationError
  | _ =>
      do! _ <- loop ANCHOR_PATH rows in
      emit (EPrint ("Finished! Assets saved to " ++ OUT_DIR))
  end.

(** Running the script: module-level token check, then [main()]. *)
Definition script (env_token : option string) (rows : list row) : M unit :=
  fun s => match load_api_token env_token with
           | Err e => (Err e, s)
           | Ok _ => main rows s
           end.

End Driver.

(* ------------------------------------------------------------------ *)
(** ** [optimize_assets.py] *)

(** [os.path.join(a, b)] (posixpath) for two components. *)
Definition path_join (a b : string) : string :=
  if startswith "/" b then b
  else if String.eqb a "" || endswith "/" a then a ++ b
  else a ++ "/" ++ b.

(** [str.rfind] of one character: the last index, or -1. *)
Fixpoint rfind_aux (c : ascii) (l : list ascii) (i : nat) (best : Z) : Z :=
  match l with
  | [] => best
  | x :: l' => rfind_aux c l' (S i) (if Ascii.eqb x c then Z.of_nat i else best)
  end.

Definition rfind (c : ascii) (l : list ascii) : Z := rfind_aux c l 0 (-1).

(** [os.path.splitext] (posixpath / genericpath._splitext with sep "/"
    and extsep "."): split at the last dot of the last component, unless
    every character of the component before that dot is a dot. *)
Definition splitext (p : string) : string * string :=
  let l := list_ascii_of_string p in
  let sepIndex := rfind "/"%char l in
  let dotIndex := rfind "."%char l in
  let between := firstn (Z.to_nat dotIndex - Z.to_nat (sepIndex + 1))
                        (skipn (Z.to_nat (sepIndex + 1)) l) in
  if (sepIndex <? dotIndex)%Z && existsb (fun c => negb (Ascii.eqb c "."%char)) between
  then (string_of_list_ascii (firstn (Z.to_nat dotIndex) l),
        string_of_list_ascii (skipn (Z.to_nat dotIndex) l))
  else (p, "").

(** [os.path.splitext(file_path)[0] + '.webp'] *)
Definition webp_path_of (file_path : string) : string := fst (splitext file_path) ++ ".webp".

Definition QUALITY : Z := 85.

(** How [img.save(webp_path, 'webp', quality=85)] ends: Pillow first
    loads the image (a failure there leaves the target alone), then opens
    the target with "w+b" and runs the encoder; if the encoder fails, a
    target created by the call is removed and a pre-existing one is left
    truncated. *)
Inductive save_outcome :=
  | SaveOk (data : bytes)
  | SaveFailsEarly (msg : string)
  | SaveFailsWriting (msg : string).

Section Converter.

Variable image : Type.
(** [Image.open] on the contents of a file: the image, or the message of
    the exception. *)
Variable pil_open : bytes -> string + image.
(** [img.save(path, format, quality=q)] as above. *)
Variable pil_save : image -> string -> Z -> save_outcome.

(** The body of the [try] block (lines 14-20): [None] when it completes,
    [Some msg] when it raises. *)
Definition convert_body (file_path : string) (s : state) : option string * state :=
  match fs s !! file_path with
  | None => (Some "[Errno 2] No such file or directory", s)
  | Some b =>
      match pil_open b with
      | inl e => (Some e, s)
      | inr img =>
          let webp_path := webp_path_of file_path in
          match pil_save img "webp" QUALITY with
          | SaveFailsEarly e => (Some e, s)
          | outcome =>
              if bool_decide (webp_path ∈ dirs s) then (Some "[Errno 21] Is a directory", s)
              else match outcome with
                   | SaveOk data =>
                       (None, mkState (<[webp_path:=data]> (fs s)) (dirs s)
                                (log s ++ [EWrite webp_path data;
                                           EPrint ("Converted " ++ file_path ++ " to " ++ webp_path)]))
                   | SaveFailsWriting e =>
                       (Some e, mkState (if bool_decide (is_Some (fs s !! webp_path))
                                         then <[webp_path:=[]]> (fs s)
                                         else delete webp_path (fs s))
                                        (dirs s) (log s))
                   | SaveFailsEarly e => (Some e, s)
                   end
          end
      end
  end.

(** [try: ... except Exception as e: print(f"Could not convert ...")] *)
Definition convert_file (file_path : string) : M unit :=
  fun s => match convert_body file_path s with
           | (None, s') => (Ok tt, s')
           | (Some e, s') =>
               (Ok tt, mkState (fs s') (dirs s')
                         (log s' ++ [EPrint ("Could not convert " ++ file_path ++ ": " ++ e)]))
           end.

Fixpoint convert_files (subdir : string) (files : list string) : M unit :=
  match files with
  | [] => retM tt
  | file :: rest =>
      do! _ <- (if endswith ".png" (lower file) then convert_file (path_join subdir file)
                else retM tt) in
      convert_files subdir rest
  end.

(** [optimize_images(root_dir)]; [walk] is the sequence of
    [(subdir, files)] that [os.walk(root_dir)] yields.  Each directory is
    listed when it is visited, and the script only adds files next to
    sources already listed, so the listing is fixed in advance. *)
Fixpoint optimize_images (walk : list (string * list string)) : M unit :=
  match walk with
  | [] => retM tt
  | (subdir, files) :: rest =>
      do! _ <- convert_files subdir files in optimize_images rest
  end.

End Converter.

(* ------------------------------------------------------------------ *)
(** ** Observations on the event log *)

(** The provider calls of a log: prompt and [input_image] path. *)
Definition calls (l : list event) : list (string * string) :=
  omap (fun e => match e with ECall p i _ => Some (p, i) | _ => None end) l.

Definition is_sleep (e : event) : bool :=
  match e with ESleep _ => true | _ => false end.

Definition row_out (SCRIPT_DIR : string) (r : row) : string :=
  out_path SCRIPT_DIR (strip (filename r)).

(** The reference image item [k] of [rows] is conditioned on when the
    chain starts at [anchor]: the anchor for the first item, otherwise the
    output path of the item just before. *)
Definition ref_for (SCRIPT_DIR anchor : string) (rows : list row) (k : nat) : string :=
  match k with
  | 0 => anchor
  | S j => match rows !! j with
           | Some r => row_out SCRIPT_DIR r
           | None => anchor
           end
  end.

Definition nth_prompt (rows : list row) (k : nat) : string :=
  match rows !! k with Some r => strip (prompt r) | None => "" end.

(** The full paths the converter treats as sources, in walk order. *)
Definition png_files (walk : list (string * list string)) : list string :=
  List.concat (map (fun '(d, files) =>
                 map (path_join d) (filter (fun f => endswith ".png" (lower f) = true) files))
              walk).

(** The exception message of the [try] block for one file, or [None]. *)
Definition convert_error {image} (pil_open : bytes -> string + image)
    (pil_save : image -> string -> Z -> save_outcome) (s : state) (file_path : string)
    : option string :=
  fst (convert_body image pil_open pil_save file_path s).

(** The events of converting one file on its own, from the file system
    and the directories of [s]. *)
Definition file_log {image} (pil_open : bytes -> string + image)
    (pil_save : image -> string -> Z -> save_outcome) (s : state) (file_path : string)
    : list event :=
  log (snd (convert_file image pil_open pil_save file_path (mkState (fs s) (dirs s) []))).

(** The line [optimize_images] prints for one source: the success
    message, or the failure message with the exception text. *)
Definition report_line {image} (pil_open : bytes -> string + image)
    (pil_save : image -> string -> Z -> save_outcome) (s : state) (file_path : string)
    : string :=
  match convert_error pil_open pil_save s file_path with
  | None => "Converted " ++ file_path ++ " to " ++ webp_path_of file_path
  | Some e => "Could not convert " ++ file_path ++ ": " ++ e
  end.

(** The paths written in a log, in order. *)
Definition writes (l : list event) : list string :=
  omap (fun e => match e with EWrite p _ => Some p | _ => None end) l.

(** The lines printed in a log. *)
Definition prints (l : list event) : list string :=
  omap (fun e => match e with EPrint m => Some m | _ => None end) l.

(** A CSV row with both fields already stripped. *)
Definition trim_row (r : row) : row := mkRow (strip (filename r)) (strip (prompt r)).

(** Small concrete configurations used to exercise the statements below. *)
Module Demo.

Definition dir : string := "d".
Definition anchor_png : bytes := [Byte.x01].
(** Only the anchor exists. *)
Definition fresh : state := mkState {[ "d/anchor.png" := anchor_png ]} ∅ [].
(** The anchor and a previous output for the row [rock]. *)
Definition rock_done : state :=
  mkState (<[ "d/generated/rock.png" := [Byte.x02] ]> {[ "d/anchor.png" := anchor_png ]})
          {[ "d/generated" ]} [].
(** A regular file sits where the output directory should be. *)
Definition out_dir_is_file : state :=
  mkState (<[ "d/generated" := [] ]> {[ "d/anchor.png" := anchor_png ]}) ∅ [].

Definition rock : row := mkRow " rock " "a mossy rock".
Definition tree : row := mkRow "tree" " a pine tree".

Definition provider_bytes : nat -> string -> bytes -> string -> call_outcome :=
  fun _ _ _ _ => Returned (RBytes [Byte.x02]).
Definition provider_raises : nat -> string -> bytes -> string -> call_outcome :=
  fun _ _ _ _ => Raised.
Definition provider_url : nat -> string -> bytes -> string -> call_outcome :=
  fun _ _ _ _ => Returned (RStr "https://example.org/out.png").
Definition fetch_down : nat -> string -> fetch_outcome := fun _ _ => NetworkError.
Definition fetch_304 : nat -> string -> fetch_outcome := fun _ _ => Response 304 [Byte.x07].

(** A converter whose decoder accepts everything and whose encoder appends
    a marker byte. *)
Definition pil_open (b : bytes) : string + bytes := inr b.
Definition pil_save (img : bytes) (format : string) (quality : Z) : save_outcome :=
  SaveOk (img ++ [Byte.x09]).
Definition walk : list (string * list string) := [("img", ["a.png"; "notes.txt"; "B.PNG"])].
Definition pngs : state :=
  mkState (<[ "img/B.PNG" := [Byte.x04] ]> {[ "img/a.png" := [Byte.x03] ]}) ∅ [].
(** The same tree after an earlier conversion left "img/a.webp" behind. *)
Definition pngs_converted : state :=
  mkState (<[ "img/a.webp" := [Byte.x0a] ]> (fs pngs)) ∅ [].

End Demo.

(* ================================================================== *)
(** * Properties *)

(** ** The driver: effects of the building blocks *)

Ltac unfold_M :=
  unfold bindM, retM, raise, emit, get in *.

Lemma run_flux_effect provider fetch prompt img_path s r s' :
  run_flux provider fetch prompt img_path s = (r, s') ->
  fs s' = fs s /\ dirs s' = dirs s /\
  (log s' = log s \/ log s' = log s ++ [ECall prompt img_path ASPECT_RATIO] \/
   exists u, log s' = log s ++ [ECall prompt img_path ASPECT_RATIO; EFetch u]).
Proof.
  unfold run_flux, open_rb, client_run, extract_bytes, requests_get. unfold_M.
  intros H. repeat (case_match; simplify_eq/=); simpl;
    (split; [done | split; [done |]]);
    first [ by left | by right; left
          | right; right; eexists; by rewrite <- app_assoc ].
Qed.

Lemma calls_app l1 l2 : calls (l1 ++ l2) = calls l1 ++ calls l2.
Proof. apply omap_app. Qed.

Lemma step_result SCRIPT_DIR provider fetch p r s q s' :
  step SCRIPT_DIR provider fetch p r s = (Ok q, s') -> q = row_out SCRIPT_DIR r.
Proof.
  unfold step, write_bytes. unfold_M. intros H.
  repeat (case_match; simplify_eq/=); done.
Qed.

Lemma step_calls SCRIPT_DIR provider fetch p r s res s' :
  step SCRIPT_DIR provider fetch p r s = (res, s') ->
  calls (log s') = calls (log s) \/
  calls (log s') = calls (log s) ++ [(strip (prompt r), p)].
Proof.
  unfold step, write_bytes. unfold_M. intros H.
  destruct (path_exists _ s); [simplify_eq/=; by left |].
  destruct (run_flux provider fetch (strip (prompt r)) p s) as [rf s1] eqn:Hr.
  apply run_flux_effect in Hr as (_ & _ & Hlog).
  assert (calls (log s1) = calls (log s) \/
          calls (log s1) = calls (log s) ++ [(strip (prompt r), p)]) as Hc.
  { destruct Hlog as [-> | [-> | [u ->]]]; rewrite ?calls_app; [by left | by right |].
    right. reflexivity. }
  repeat (case_match; simplify_eq/=); rewrite ?calls_app; simpl; rewrite ?app_nil_r; done.
Qed.

Lemma loop_app SCRIPT_DIR provider fetch pre rest p s :
  loop SCRIPT_DIR provider fetch p (pre ++ rest) s =
  match loop SCRIPT_DIR provider fetch p pre s with
  | (Ok q, s1) => loop SCRIPT_DIR provider fetch q rest s1
  | (Err e, s1) => (Err e, s1)
  end.
Proof.
  revert p s. induction pre as [|r pre IH]; intros p s; simpl; [done |].
  unfold bindM. destruct (step _ _ _ p r s) as [[q|e] s1]; [apply IH | done].
Qed.

Lemma ref_for_cons SCRIPT_DIR p r rs k :
  k < List.length rs ->
  ref_for SCRIPT_DIR p (r :: rs) (S k) = ref_for SCRIPT_DIR (row_out SCRIPT_DIR r) rs k.
Proof.
  unfold ref_for. intros Hk. destruct k as [|j]; simpl; [done |].
  destruct (rs !! j) eqn:E; [done |]. apply lookup_ge_None in E. lia.
Qed.

Lemma Sorted_lt_shift (ks : list nat) :
  Sorted lt ks -> Sorted lt (map S ks) /\ HdRel lt 0 (map S ks).
Proof.
  induction 1 as [|k ks Hs [IH _] Hhd]; simpl; split; constructor; try lia; auto.
  destruct Hhd; constructor; lia.
Qed.

Lemma loop_calls SCRIPT_DIR provider fetch rows :
  forall p s res s',
  loop SCRIPT_DIR provider fetch p rows s = (res, s') ->
  exists ks : list nat,
    Sorted lt ks /\ Forall (fun k => k < List.length rows) ks /\
    calls (log s') = calls (log s) ++
      map (fun k => (nth_prompt rows k, ref_for SCRIPT_DIR p rows k)) ks.
Proof.
  induction rows as [|r rs IH]; intros p s res s' H; simpl in H.
  - unfold_M. simplify_eq/=. exists []. rewrite app_nil_r. repeat constructor.
  - unfold bindM in H.
    destruct (step SCRIPT_DIR provider fetch p r s) as [res1 s1] eqn:Hs.
    pose proof (step_calls _ _ _ _ _ _ _ _ Hs) as Hc.
    destruct res1 as [q|e].
    + apply step_result in Hs as ->.
      destruct (IH _ _ _ _ H) as (ks & Hsort & Hlt & Hcalls).
      destruct (Sorted_lt_shift ks Hsort) as [Hsort' Hhd].
      assert (Forall (fun k => k < List.length (r :: rs)) (map S ks)).
      { apply Forall_map. eapply Forall_impl; [exact Hlt |]. simpl; lia. }
      assert (map (fun k => (nth_prompt rs k, ref_for SCRIPT_DIR (row_out SCRIPT_DIR r) rs k)) ks
              = map (fun k => (nth_prompt (r :: rs) k, ref_for SCRIPT_DIR p (r :: rs) k))
                    (map S ks)) as Hm.
      { rewrite map_map. apply map_ext_Forall.
        eapply Forall_impl; [exact Hlt |]. intros k Hk. by rewrite ref_for_cons. }
      destruct Hc as [Hc | Hc].
      * exists (map S ks). rewrite Hcalls, Hc, Hm. auto.
      * exists (0 :: map S ks). rewrite Hcalls, Hc, Hm, <- app_assoc.
        split; [by constructor |]. split; [constructor; [simpl; lia | done] |]. done.
    + simplify_eq/=. destruct Hc as [Hc | Hc].
      * exists []. rewrite Hc, app_nil_r. repeat constructor.
      * exists [0]. rewrite Hc. split; [repeat constructor |].
        split; [constructor; [simpl; lia | constructor] | done].
Qed.

Lemma path_exists_mono p s s' :
  fs s' = fs s -> dirs s ⊆ dirs s' -> path_exists p s = true -> path_exists p s' = true.
Proof.
  unfold path_exists. intros Hfs Hd. rewrite Hfs, !orb_true_iff, !bool_decide_eq_true.
  intros [H|H]; [by left | right; set_solver].
Qed.

Lemma mkdir_effect p s res s' :
  mkdir_exist_ok p s = (res, s') ->
  fs s' = fs s /\ dirs s ⊆ dirs s' /\ calls (log s') = calls (log s) /\
  (res = Ok tt \/ (res = Err IOError /\ is_Some (fs s !! p) /\ s' = s)).
Proof.
  unfold mkdir_exist_ok. intros H.
  repeat (case_match; simplify_eq/=); rewrite ?calls_app, ?app_nil_r;
    repeat split; try set_solver; auto.
  right. split; [done |]. split; [|done].
  match goal with H : bool_decide _ = true |- _ => by apply bool_decide_eq_true in H end.
Qed.

Lemma step_skip SCRIPT_DIR provider fetch p r s :
  path_exists (row_out SCRIPT_DIR r) s = true ->
  step SCRIPT_DIR provider fetch p r s = (Ok (row_out SCRIPT_DIR r), s).
Proof. unfold step, row_out. unfold_M. intros H. by rewrite H. Qed.

Lemma loop_all_skipped SCRIPT_DIR provider fetch rows :
  forall p s, (forall r, In r rows -> path_exists (row_out SCRIPT_DIR r) s = true) ->
  exists q, loop SCRIPT_DIR provider fetch p rows s = (Ok q, s).
Proof.
  induction rows as [|r rs IH]; intros p s H; simpl; unfold_M; [by eexists |].
  rewrite step_skip by (apply H; by left).
  apply IH. intros r' Hr'. apply H. by right.
Qed.

Lemma loop_step_last SCRIPT_DIR provider fetch p pre r s0 :
  loop SCRIPT_DIR provider fetch p (pre ++ [r]) s0 =
  match loop SCRIPT_DIR provider fetch p pre s0 with
  | (Ok q, s1) => step SCRIPT_DIR provider fetch q r s1
  | (Err e, s1) => (Err e, s1)
  end.
Proof.
  rewrite loop_app. destruct (loop _ _ _ p pre s0) as [[q|e] s1]; [| done].
  simpl. unfold_M. by destruct (step _ _ _ q r s1) as [[?|?] ?].
Qed.

(** ** Strings and paths *)

Lemma list_ascii_of_string_app s1 s2 :
  list_ascii_of_string (s1 ++ s2) = list_ascii_of_string s1 ++ list_ascii_of_string s2.
Proof. induction s1 as [|c s1 IH]; [reflexivity |]. exact (f_equal (cons c) IH). Qed.

Lemma string_of_list_ascii_app a b :
  string_of_list_ascii (a ++ b) = (string_of_list_ascii a ++ string_of_list_ascii b)%string.
Proof. induction a as [|c a IH]; [reflexivity |]. exact (f_equal (String c) IH). Qed.

Lemma string_app_nil_r s : (s ++ "")%string = s.
Proof. induction s as [|c s IH]; [reflexivity |]. exact (f_equal (String c) IH). Qed.

Lemma prefix_list a b :
  String.prefix (string_of_list_ascii a) (string_of_list_ascii b) = true <->
  exists c, b = a ++ c.
Proof.
  revert b. induction a as [|x a IH]; intros b; simpl.
  - split; [intros _; by exists b | intros _; destruct b; reflexivity].
  - destruct b as [|y b]; simpl.
    + split; [discriminate | by intros [c ?]].
    + destruct (ascii_dec x y) as [<-|Hne].
      * rewrite IH. split; intros [c Hc]; exists c; congruence.
      * split; [discriminate |]. intros [c Hc]. congruence.
Qed.

Lemma endswith_iff suf s : endswith suf s = true <-> exists y, s = (y ++ suf)%string.
Proof.
  unfold endswith. rewrite prefix_list. split.
  - intros [c Hc]. exists (string_of_list_ascii (rev c)).
    rewrite <- (string_of_list_ascii_of_string s), <- (rev_involutive (list_ascii_of_string s)), Hc.
    rewrite rev_app_distr, rev_involutive, string_of_list_ascii_app, string_of_list_ascii_of_string.
    done.
  - intros [y ->]. exists (rev (list_ascii_of_string y)).
    by rewrite list_ascii_of_string_app, rev_app_distr.
Qed.

Lemma webp_path_of_endswith fp : endswith ".webp" (webp_path_of fp) = true.
Proof. apply endswith_iff. by eexists. Qed.

(** A name that [optimize_images] treats as a PNG source never ends in
    ".webp", so no target of the walk is a source. *)
Lemma png_not_webp p : endswith ".png" (lower p) = true -> endswith ".webp" p = false.
Proof.
  intros Hp. destruct (endswith ".webp" p) eqn:E; [exfalso | done].
  apply endswith_iff in E as [y ->]. apply endswith_iff in Hp as [z Hz].
  apply (f_equal list_ascii_of_string) in Hz. unfold lower in Hz.
  rewrite list_ascii_of_string_of_list_ascii, !list_ascii_of_string_app, map_app in Hz.
  assert (Hw : map lower_char (list_ascii_of_string ".webp") = list_ascii_of_string ".webp")
    by reflexivity.
  rewrite Hw in Hz. apply (f_equal (@rev ascii)) in Hz.
  rewrite !rev_app_distr in Hz. simpl in Hz. discriminate.
Qed.

Lemma rfind_aux_ge c l : forall i best,
  (best < Z.of_nat i)%Z -> (best <= rfind_aux c l i best)%Z.
Proof.
  induction l as [|x l IH]; intros i best Hb; simpl; [lia |].
  destruct (Ascii.eqb x c).
  - specialize (IH (S i) (Z.of_nat i) ltac:(lia)). lia.
  - apply IH. lia.
Qed.

Lemma rfind_aux_last c l : forall i best j,
  (best < Z.of_nat i)%Z -> l !! j = Some c -> (Z.of_nat (i + j) <= rfind_aux c l i best)%Z.
Proof.
  induction l as [|x l IH]; intros i best j Hb Hj; [done |].
  destruct j as [|j]; simpl in Hj |- *.
  - injection Hj as ->. rewrite Ascii.eqb_refl.
    pose proof (rfind_aux_ge c l (S i) (Z.of_nat i) ltac:(lia)). lia.
  - replace (i + S j) with (S i + j) by lia.
    apply IH; [| done]. destruct (Ascii.eqb x c); lia.
Qed.

(** [os.path.splitext] splits a path into a root and an extension that
    contains no separator, so [root + '.webp'] lies next to the source. *)
Lemma splitext_sibling p root ext :
  splitext p = (root, ext) ->
  p = (root ++ ext)%string /\ ~ In "/"%char (list_ascii_of_string ext).
Proof.
  unfold splitext. intros H.
  set (l := list_ascii_of_string p) in H.
  set (si := rfind "/"%char l) in H. set (di := rfind "."%char l) in H.
  destruct (_ && _) eqn:Hc; injection H as <- <-.
  - apply andb_true_iff in Hc as [Hlt _]. apply Z.ltb_lt in Hlt. split.
    + rewrite <- string_of_list_ascii_app, firstn_skipn.
      symmetry. apply string_of_list_ascii_of_string.
    + rewrite list_ascii_of_string_of_list_ascii. intros Hin.
      apply list_elem_of_In, list_elem_of_lookup in Hin as [t Ht].
      rewrite lookup_drop in Ht.
      pose proof (rfind_aux_last "/"%char l 0 (-1) _ ltac:(lia) Ht) as Hle.
      pose proof (rfind_aux_ge "."%char l 0 (-1) ltac:(lia)) as Hge.
      change (rfind_aux "/"%char l 0 (-1)) with si in Hle.
      change (rfind_aux "."%char l 0 (-1)) with di in Hge. lia.
  - split; [symmetry; apply string_app_nil_r |]. simpl. tauto.
Qed.

Lemma string_app_assoc x y z : (x ++ (y ++ z))%string = ((x ++ y) ++ z)%string.
Proof. induction x as [|c x IH]; [reflexivity |]. exact (f_equal (String c) IH). Qed.

Lemma lower_app x y : lower (x ++ y) = (lower x ++ lower y)%string.
Proof.
  unfold lower. by rewrite list_ascii_of_string_app, map_app, string_of_list_ascii_app.
Qed.

Lemma path_join_suffix d f : exists x, path_join d f = (x ++ f)%string.
Proof.
  unfold path_join. destruct (startswith _ _); [by exists "" |].
  destruct (_ || _); [by eexists |]. exists (d ++ "/")%string. apply string_app_assoc.
Qed.

Lemma path_join_png d f :
  endswith ".png" (lower f) = true -> endswith ".webp" (path_join d f) = false.
Proof.
  intros Hf. apply png_not_webp. destruct (path_join_suffix d f) as [x ->].
  rewrite lower_app. apply endswith_iff in Hf as [y Hy]. apply endswith_iff.
  exists (lower x ++ y)%string. by rewrite Hy, string_app_assoc.
Qed.

(** ** The converter: effects of one file and of the walk *)

Section ConverterProofs.

Context {image : Type} (pil_open : bytes -> string + image)
        (pil_save : image -> string -> Z -> save_outcome).

Lemma convert_file_effect fp s :
  let '(r, s') := convert_file image pil_open pil_save fp s in
  r = Ok tt /\ dirs s' = dirs s /\
  (forall p, p <> webp_path_of fp -> fs s' !! p = fs s !! p) /\
  log s' = log s ++ file_log pil_open pil_save s fp.
Proof.
  unfold file_log, convert_file, convert_body; simpl.
  repeat (case_match; simplify_eq/=);
    (split; [done | split; [done | split]]);
    try (intros q Hq; by rewrite ?lookup_insert_ne, ?lookup_delete_ne by congruence);
    done.
Qed.

Lemma file_log_local s1 s2 fp :
  fs s1 !! fp = fs s2 !! fp -> dirs s1 = dirs s2 ->
  file_log pil_open pil_save s1 fp = file_log pil_open pil_save s2 fp.
Proof.
  intros Hfs Hd. unfold file_log, convert_file, convert_body; simpl.
  rewrite Hfs, Hd. repeat (case_match; simplify_eq/=); done.
Qed.

Lemma png_paths_not_webp d files fp :
  In fp (map (path_join d) (filter (fun f => endswith ".png" (lower f) = true) files)) ->
  endswith ".webp" fp = false.
Proof.
  intros Hin. apply in_map_iff in Hin as (f & <- & Hf).
  apply list_elem_of_In, list_elem_of_filter in Hf as [Hf _]. by apply path_join_png.
Qed.

Lemma png_files_not_webp walk fp : In fp (png_files walk) -> endswith ".webp" fp = false.
Proof.
  unfold png_files. intros Hin. apply in_concat in Hin as (l & Hl & Hfp).
  apply in_map_iff in Hl as ([d files] & <- & _). by eapply png_paths_not_webp.
Qed.

Lemma file_log_after s s1 fps :
  dirs s1 = dirs s ->
  (forall p, endswith ".webp" p = false -> fs s1 !! p = fs s !! p) ->
  (forall fp, In fp fps -> endswith ".webp" fp = false) ->
  map (file_log pil_open pil_save s1) fps = map (file_log pil_open pil_save s) fps.
Proof.
  intros Hd Hfs Hfps. apply map_ext_in. intros fp Hin.
  apply file_log_local; [by apply Hfs, Hfps | done].
Qed.

Lemma convert_files_effect d files : forall s,
  let '(r, s') := convert_files image pil_open pil_save d files s in
  r = Ok tt /\ dirs s' = dirs s /\
  (forall p, endswith ".webp" p = false -> fs s' !! p = fs s !! p) /\
  log s' = log s ++ List.concat (map (file_log pil_open pil_save s)
             (map (path_join d) (filter (fun f => endswith ".png" (lower f) = true) files))).
Proof.
  induction files as [|f rest IH]; intros s; simpl; unfold_M.
  - simpl. rewrite app_nil_r. auto.
  - destruct (endswith ".png" (lower f)) eqn:Hpng.
    + rewrite filter_cons_True by done.
      pose proof (convert_file_effect (path_join d f) s) as Hc.
      destruct (convert_file _ _ _ _ s) as [r1 s1]. destruct Hc as (-> & Hd1 & Hfs1 & Hl1).
      specialize (IH s1). destruct (convert_files _ _ _ d rest s1) as [r2 s2].
      destruct IH as (-> & Hd2 & Hfs2 & Hl2).
      assert (Hfs : forall p, endswith ".webp" p = false -> fs s1 !! p = fs s !! p).
      { intros p Hp. apply Hfs1. intros ->. by rewrite webp_path_of_endswith in Hp. }
      split; [done |]. split; [congruence |]. split.
      * intros p Hp. rewrite Hfs2 by done. by apply Hfs.
      * rewrite Hl2, Hl1, (file_log_after s s1); [| done | done |].
        -- simpl. by rewrite <- app_assoc.
        -- intros fp Hfp. by eapply png_paths_not_webp.
    + rewrite filter_cons_False by congruence. apply IH.
Qed.

Lemma optimize_images_effect walk : forall s,
  let '(r, s') := optimize_images image pil_open pil_save walk s in
  r = Ok tt /\ dirs s' = dirs s /\
  (forall p, endswith ".webp" p = false -> fs s' !! p = fs s !! p) /\
  log s' = log s ++ List.concat (map (file_log pil_open pil_save s) (png_files walk)).
Proof.
  induction walk as [|[d files] rest IH]; intros s; simpl; unfold_M.
  - simpl. rewrite app_nil_r. auto.
  - pose proof (convert_files_effect d files s) as Hc.
    destruct (convert_files _ _ _ d files s) as [r1 s1]. destruct Hc as (-> & Hd1 & Hfs1 & Hl1).
    specialize (IH s1). destruct (optimize_images _ _ _ rest s1) as [r2 s2].
    destruct IH as (-> & Hd2 & Hfs2 & Hl2).
    split; [done |]. split; [congruence |]. split.
    + intros p Hp. rewrite Hfs2 by done. by apply Hfs1.
    + unfold png_files. simpl. fold (png_files rest).
      rewrite map_app, concat_app, Hl2, Hl1, (file_log_after s s1 (png_files rest)); [| done | done |].
      * by rewrite <- app_assoc.
      * apply png_files_not_webp.
Qed.

End ConverterProofs.

(* ================================================================== *)
(** * The claims *)

(** ** Chaining pointer *)

(** C1 (as amended): in the generator, the chaining pointer after any item
    [r] reached without error is the output path of [r], whether [r] was
    generated or skipped because its output already existed. *)
Theorem chain_pointer_after_item SCRIPT_DIR provider fetch p pre r s0 q s :
  loop SCRIPT_DIR provider fetch p (pre ++ [r]) s0 = (Ok q, s) ->
  q = row_out SCRIPT_DIR r.
Proof.
  rewrite loop_step_last.
  destruct (loop SCRIPT_DIR provider fetch p pre s0) as [[q1|e] s1]; [| discriminate].
  apply step_result.
Qed.

Lemma chain_pointer_after_item_witness :
  loop Demo.dir Demo.provider_bytes Demo.fetch_down (ANCHOR_PATH Demo.dir)
       ([Demo.rock] ++ [Demo.tree]) Demo.rock_done
  = (Ok (row_out Demo.dir Demo.tree),
     snd (loop Demo.dir Demo.provider_bytes Demo.fetch_down (ANCHOR_PATH Demo.dir)
               ([Demo.rock] ++ [Demo.tree]) Demo.rock_done)) /\
  row_out Demo.dir Demo.tree = row_out Demo.dir Demo.tree.
Proof.
  assert (H : loop Demo.dir Demo.provider_bytes Demo.fetch_down (ANCHOR_PATH Demo.dir)
                   ([Demo.rock] ++ [Demo.tree]) Demo.rock_done
              = (Ok (row_out Demo.dir Demo.tree),
                 snd (loop Demo.dir Demo.provider_bytes Demo.fetch_down (ANCHOR_PATH Demo.dir)
                           ([Demo.rock] ++ [Demo.tree]) Demo.rock_done)))
    by (vm_compute; reflexivity).
  split; [exact H | exact (chain_pointer_after_item _ _ _ _ _ _ _ _ _ H)].
Defined.

(** C1, counterexample: the first item's output already exists, so it is
    skipped; the pointer still moves from the anchor to that output. *)
Lemma skipped_item_moves_pointer :
  path_exists (row_out Demo.dir Demo.rock) Demo.rock_done = true /\
  step Demo.dir Demo.provider_bytes Demo.fetch_down (ANCHOR_PATH Demo.dir) Demo.rock Demo.rock_done
    = (Ok (row_out Demo.dir Demo.rock), Demo.rock_done) /\
  row_out Demo.dir Demo.rock <> ANCHOR_PATH Demo.dir.
Proof. vm_compute. split; [reflexivity | split; [reflexivity | discriminate]]. Qed.

(** ** Reference image of every provider call *)

Lemma main_calls_cases SCRIPT_DIR provider fetch rows s res s' :
  main SCRIPT_DIR provider fetch rows s = (res, s') ->
  (calls (log s') = calls (log s) /\ fs s' = fs s) \/
  exists s1 res1 s2, rows <> [] /\ calls (log s1) = calls (log s) /\ fs s1 = fs s /\
    dirs s ⊆ dirs s1 /\
    loop SCRIPT_DIR provider fetch (ANCHOR_PATH SCRIPT_DIR) rows s1 = (res1, s2) /\
    calls (log s') = calls (log s2) /\ fs s' = fs s2.
Proof.
  unfold main. unfold_M. intros H.
  destruct (path_exists (ANCHOR_PATH SCRIPT_DIR) s); simpl in H; [| simplify_eq; by left].
  destruct (mkdir_exist_ok (OUT_DIR SCRIPT_DIR) s) as [r1 s1] eqn:Hm.
  apply mkdir_effect in Hm as (Hfs1 & Hd1 & Hc1 & Hr1).
  destruct Hr1 as [-> | [-> _]]; [| simplify_eq; by left].
  destruct rows as [|r rs]; [simplify_eq; by left |].
  destruct (loop SCRIPT_DIR provider fetch (ANCHOR_PATH SCRIPT_DIR) (r :: rs) s1)
    as [[q|e] s2] eqn:Hl; simplify_eq/=.
  - right. exists s1, (Ok q), s2. rewrite calls_app. simpl. rewrite app_nil_r. auto 10.
  - right. exists s1, (Err e), s'. auto 10.
Qed.

(** C2: every provider call made by a run passes an input image, and the
    calls go, in order, to strictly increasing items [k]; the call for item
    [k] carries that item's prompt and, as reference, the anchor when [k] is
    the first item and otherwise the output path of item [k-1] (generated
    or found on disk). *)
Theorem main_provider_calls_refs SCRIPT_DIR provider fetch rows s res s' :
  main SCRIPT_DIR provider fetch rows s = (res, s') ->
  exists ks : list nat,
    Sorted lt ks /\ Forall (fun k => k < List.length rows) ks /\
    calls (log s') = calls (log s) ++
      map (fun k => (nth_prompt rows k, ref_for SCRIPT_DIR (ANCHOR_PATH SCRIPT_DIR) rows k)) ks.
Proof.
  intros H. apply main_calls_cases in H as [[Hc _] | (s1 & res1 & s2 & _ & Hc1 & _ & _ & Hl & Hc & _)].
  - exists []. rewrite Hc, app_nil_r. repeat constructor.
  - apply loop_calls in Hl as (ks & Hs & Hlt & Hcl). exists ks. rewrite Hc, Hcl, Hc1. auto.
Qed.

Lemma main_provider_calls_refs_witness :
  calls (log (snd (main Demo.dir Demo.provider_bytes Demo.fetch_down
                        [Demo.rock; Demo.tree] Demo.fresh)))
  = [("a mossy rock", "d/anchor.png"); ("a pine tree", "d/generated/rock.png")] /\
  exists ks : list nat,
    Sorted lt ks /\ Forall (fun k => k < 2) ks /\
    calls (log (snd (main Demo.dir Demo.provider_bytes Demo.fetch_down
                          [Demo.rock; Demo.tree] Demo.fresh))) = calls (log Demo.fresh) ++
      map (fun k => (nth_prompt [Demo.rock; Demo.tree] k,
                     ref_for Demo.dir (ANCHOR_PATH Demo.dir) [Demo.rock; Demo.tree] k)) ks.
Proof.
  split; [vm_compute; reflexivity |].
  apply (main_provider_calls_refs Demo.dir Demo.provider_bytes Demo.fetch_down
           [Demo.rock; Demo.tree] Demo.fresh
           (fst (main Demo.dir Demo.provider_bytes Demo.fetch_down [Demo.rock; Demo.tree] Demo.fresh))).
  vm_compute. reflexivity.
Defined.

(** ** Idempotent re-runs *)

(** C3: when the output of every row is already on disk, a run makes no
    provider call and leaves every file as it was. *)
Theorem main_all_present_idempotent SCRIPT_DIR provider fetch rows s res s' :
  (forall r, In r rows -> path_exists (row_out SCRIPT_DIR r) s = true) ->
  main SCRIPT_DIR provider fetch rows s = (res, s') ->
  calls (log s') = calls (log s) /\ fs s' = fs s.
Proof.
  intros Hall H.
  apply main_calls_cases in H as [? | (s1 & res1 & s2 & _ & Hc1 & Hfs1 & Hd1 & Hl & Hc & Hfs)].
  - done.
  - destruct (loop_all_skipped SCRIPT_DIR provider fetch rows (ANCHOR_PATH SCRIPT_DIR) s1)
      as [q Hq].
    { intros r Hr. eapply path_exists_mono; [exact Hfs1 | exact Hd1 | by apply Hall]. }
    rewrite Hl in Hq. simplify_eq. rewrite Hc, Hfs. auto.
Qed.

Lemma main_all_present_idempotent_witness :
  calls (log (snd (main Demo.dir Demo.provider_bytes Demo.fetch_down [Demo.rock] Demo.rock_done)))
    = calls (log Demo.rock_done) /\
  fs (snd (main Demo.dir Demo.provider_bytes Demo.fetch_down [Demo.rock] Demo.rock_done))
    = fs Demo.rock_done.
Proof.
  apply (main_all_present_idempotent Demo.dir Demo.provider_bytes Demo.fetch_down [Demo.rock]
           Demo.rock_done
           (fst (main Demo.dir Demo.provider_bytes Demo.fetch_down [Demo.rock] Demo.rock_done))).
  - intros r [<- | []]. vm_compute. reflexivity.
  - vm_compute. reflexivity.
Defined.

(** ** Credential check *)

(** C4, the failing input: a token made of blanks passes [if not API_TOKEN]
    (it is stripped only afterwards, to the empty string), and the run goes
    on to call the provider. *)
Lemma blank_token_reaches_provider :
  load_api_token (Some "   ") = Ok "" /\
  calls (log (snd (script Demo.dir Demo.provider_bytes Demo.fetch_down (Some "   ")
                          [Demo.rock] Demo.fresh)))
  = [("a mossy rock", "d/anchor.png")].
Proof. split; vm_compute; reflexivity. Qed.

(** ** Empty work list *)

(** C5, counterexample: with an empty work list but a regular file at the
    output-directory path, [OUT_DIR.mkdir(exist_ok=True)] runs first and
    fails with [FileExistsError]; the run does not end in the
    [SystemExit] of the emptiness check. *)
Lemma empty_rows_out_dir_file :
  main Demo.dir Demo.provider_bytes Demo.fetch_down [] Demo.out_dir_is_file
  = (Err IOError, Demo.out_dir_is_file).
Proof. vm_compute. reflexivity. Qed.

(** C5 (as amended): with an empty work list the run fails without any
    provider call and without changing any file.  The error is the
    configuration error (missing anchor, or the emptiness check) unless
    the anchor exists and a non-directory already occupies the
    output-directory path: then creating the directory, which comes
    before the emptiness check, fails first with an I/O error. *)
Theorem main_empty_rows_fails_early SCRIPT_DIR provider fetch s res s' :
  main SCRIPT_DIR provider fetch [] s = (res, s') ->
  calls (log s') = calls (log s) /\ fs s' = fs s /\
  res = (if path_exists (ANCHOR_PATH SCRIPT_DIR) s &&
            bool_decide (is_Some (fs s !! OUT_DIR SCRIPT_DIR))
         then Err IOError else Err ConfigurationError).
Proof.
  unfold main, mkdir_exist_ok. unfold_M. intros H.
  destruct (path_exists (ANCHOR_PATH SCRIPT_DIR) s); simpl in H |- *; [| simplify_eq; auto].
  destruct (bool_decide (is_Some (fs s !! OUT_DIR SCRIPT_DIR))); [simplify_eq; auto |].
  destruct (bool_decide (OUT_DIR SCRIPT_DIR ∈ dirs s)); simplify_eq/=; auto.
  rewrite calls_app. simpl. rewrite app_nil_r. auto.
Qed.

Lemma main_empty_rows_fails_early_witness :
  calls (log (snd (main Demo.dir Demo.provider_bytes Demo.fetch_down [] Demo.out_dir_is_file)))
    = calls (log Demo.out_dir_is_file) /\
  fs (snd (main Demo.dir Demo.provider_bytes Demo.fetch_down [] Demo.out_dir_is_file))
    = fs Demo.out_dir_is_file /\
  fst (main Demo.dir Demo.provider_bytes Demo.fetch_down [] Demo.out_dir_is_file) =
    (if path_exists (ANCHOR_PATH Demo.dir) Demo.out_dir_is_file &&
        bool_decide (is_Some (fs Demo.out_dir_is_file !! OUT_DIR Demo.dir))
     then Err IOError else Err ConfigurationError).
Proof.
  apply (main_empty_rows_fails_early Demo.dir Demo.provider_bytes Demo.fetch_down
           Demo.out_dir_is_file
           (fst (main Demo.dir Demo.provider_bytes Demo.fetch_down [] Demo.out_dir_is_file))).
  vm_compute. reflexivity.
Defined.

(** ** Result shapes of [run_flux] *)

(** C6, counterexample: the provider answers with a URL whose fetch ends in
    304 Not Modified; [raise_for_status] only rejects 4xx and 5xx, so the
    body is returned instead of a provider error. *)
Lemma http_304_returns_body :
  fst (run_flux Demo.provider_url Demo.fetch_304 "p" "d/anchor.png" Demo.fresh) = Ok [Byte.x07].
Proof. vm_compute. reflexivity. Qed.

(** C6 (as amended): once the provider has been called, [run_flux] returns
    inline bytes and the contents of a readable stream as they are; a
    string starting with "http" is fetched exactly once (no retry) and
    fails on a network error or a 4xx/5xx status, its body being returned
    for any other status; every other shape fails with a provider error.
    No file is written. *)
Theorem run_flux_result_shapes provider fetch prompt img_path s img r :
  fs s !! img_path = Some img ->
  provider (List.length (log s)) prompt img ASPECT_RATIO = Returned r ->
  let '(res, s') := run_flux provider fetch prompt img_path s in
  fs s' = fs s /\
  match r with
  | RBytes b => res = Ok b /\ log s' = log s ++ [ECall prompt img_path ASPECT_RATIO]
  | RReadable (Some b) => res = Ok b /\ log s' = log s ++ [ECall prompt img_path ASPECT_RATIO]
  | RStr u =>
      if startswith "http" u then
        log s' = log s ++ [ECall prompt img_path ASPECT_RATIO; EFetch u] /\
        match fetch (S (List.length (log s))) u with
        | NetworkError => res = Err ProviderError
        | Response code body =>
            res = (if (400 <=? code)%Z && (code <? 600)%Z then Err ProviderError else Ok body)
        end
      else res = Err ProviderError
  | _ => res = Err ProviderError
  end.
Proof.
  intros Himg Hprov.
  unfold run_flux, open_rb, client_run, extract_bytes, requests_get. unfold_M.
  rewrite Himg. simpl. rewrite Hprov.
  destruct r as [b|u|[b|]|]; simpl; auto.
  destruct (startswith "http" u); simpl; [| auto].
  rewrite length_app, Nat.add_1_r. unfold raise_for_status.
  destruct (fetch _ u) as [|code body]; simpl;
    [| destruct (_ && _)]; simpl; rewrite <- ?app_assoc; auto.
Qed.

Lemma run_flux_result_shapes_witness :
  let '(res, s') := run_flux Demo.provider_url Demo.fetch_304 "p" "d/anchor.png" Demo.fresh in
  fs s' = fs Demo.fresh /\
  log s' = log Demo.fresh ++ [ECall "p" "d/anchor.png" ASPECT_RATIO;
                              EFetch "https://example.org/out.png"] /\
  res = (if (400 <=? 304)%Z && (304 <? 600)%Z then Err ProviderError else Ok [Byte.x07]).
Proof.
  exact (run_flux_result_shapes Demo.provider_url Demo.fetch_304 "p" "d/anchor.png" Demo.fresh
           Demo.anchor_png (RStr "https://example.org/out.png") eq_refl eq_refl).
Defined.

(** ** Failure of an item aborts the run *)

(** C7: if the generation call of an item that is not on disk yet fails
    with a provider error, the whole loop stops there with that error: no
    file is written (the item's output stays absent and the outputs of the
    earlier items are as they were), and nothing but that item's provider
    call and fetch is performed. *)
Theorem loop_provider_failure_aborts SCRIPT_DIR provider fetch p pre r post s0 q s1 s2 :
  loop SCRIPT_DIR provider fetch p pre s0 = (Ok q, s1) ->
  path_exists (row_out SCRIPT_DIR r) s1 = false ->
  run_flux provider fetch (strip (prompt r)) q s1 = (Err ProviderError, s2) ->
  loop SCRIPT_DIR provider fetch p (pre ++ r :: post) s0 = (Err ProviderError, s2) /\
  fs s2 = fs s1 /\ fs s2 !! row_out SCRIPT_DIR r = None /\
  exists evs, log s2 = log s1 ++ evs /\
    Forall (fun e => match e with ECall _ _ _ | EFetch _ => True | _ => False end) evs.
Proof.
  intros Hpre Hnew Hfail.
  pose proof (run_flux_effect _ _ _ _ _ _ _ Hfail) as (Hfs & _ & Hlog).
  split.
  - rewrite loop_app, Hpre. simpl. unfold step, bindM, get, retM.
    unfold row_out in Hnew. rewrite Hnew, Hfail. done.
  - split; [done |]. split.
    + rewrite Hfs. unfold path_exists in Hnew. apply orb_false_iff in Hnew as [Hn _].
      apply bool_decide_eq_false in Hn. by apply eq_None_not_Some.
    + destruct Hlog as [-> | [-> | [u ->]]].
      * exists []. rewrite app_nil_r. auto.
      * eexists. split; [reflexivity |]. repeat constructor.
      * eexists. split; [reflexivity |]. repeat constructor.
Qed.

Lemma loop_provider_failure_aborts_witness :
  loop Demo.dir Demo.provider_raises Demo.fetch_down (ANCHOR_PATH Demo.dir)
       ([Demo.rock] ++ Demo.tree :: [Demo.rock]) Demo.rock_done
  = (Err ProviderError,
     snd (run_flux Demo.provider_raises Demo.fetch_down "a pine tree" (row_out Demo.dir Demo.rock)
            Demo.rock_done)) /\
  fs (snd (run_flux Demo.provider_raises Demo.fetch_down "a pine tree" (row_out Demo.dir Demo.rock)
             Demo.rock_done)) = fs Demo.rock_done /\
  fs (snd (run_flux Demo.provider_raises Demo.fetch_down "a pine tree" (row_out Demo.dir Demo.rock)
             Demo.rock_done)) !! row_out Demo.dir Demo.tree = None /\
  exists evs,
    log (snd (run_flux Demo.provider_raises Demo.fetch_down "a pine tree"
                (row_out Demo.dir Demo.rock) Demo.rock_done)) = log Demo.rock_done ++ evs /\
    Forall (fun e => match e with ECall _ _ _ | EFetch _ => True | _ => False end) evs.
Proof.
  apply (loop_provider_failure_aborts Demo.dir Demo.provider_raises Demo.fetch_down
           (ANCHOR_PATH Demo.dir) [Demo.rock] Demo.tree [Demo.rock] Demo.rock_done
           (row_out Demo.dir Demo.rock) Demo.rock_done);
    vm_compute; reflexivity.
Defined.

(** ** Throttle *)

(** C8: in a run, an item that is skipped adds no event at all (so no
    pause), while an item that is generated ends with its write followed by
    exactly one pause of [RATE_LIMIT_SEC], the events before the write
    containing no pause. *)
Theorem loop_throttle_after_processed SCRIPT_DIR provider fetch p pre r s0 q s1 q' s2 :
  loop SCRIPT_DIR provider fetch p pre s0 = (Ok q, s1) ->
  loop SCRIPT_DIR provider fetch p (pre ++ [r]) s0 = (Ok q', s2) ->
  (path_exists (row_out SCRIPT_DIR r) s1 = true -> log s2 = log s1) /\
  (path_exists (row_out SCRIPT_DIR r) s1 = false ->
   exists mid data,
     log s2 = log s1 ++ mid ++ [EWrite (row_out SCRIPT_DIR r) data; ESleep RATE_LIMIT_MS] /\
     Forall (fun e => is_sleep e = false) mid).
Proof.
  intros Hpre H. rewrite loop_step_last, Hpre in H.
  unfold step, write_bytes in H. unfold_M. unfold row_out.
  destruct (path_exists _ s1) eqn:He.
  - simplify_eq. split; [done | discriminate].
  - split; [discriminate | intros _].
    destruct (run_flux provider fetch (strip (prompt r)) q s1) as [[b|e] s3] eqn:Hr;
      [| discriminate].
    apply run_flux_effect in Hr as (_ & _ & Hlog).
    destruct (bool_decide _); [discriminate |]. simplify_eq/=.
    destruct Hlog as [Hl | [Hl | [u Hl]]]; rewrite Hl.
    + exists [], b. split; [by rewrite <- !app_assoc | constructor].
    + exists [ECall (strip (prompt r)) q ASPECT_RATIO], b.
      split; [by rewrite <- !app_assoc | repeat constructor].
    + exists [ECall (strip (prompt r)) q ASPECT_RATIO; EFetch u], b.
      split; [by rewrite <- !app_assoc | repeat constructor].
Qed.

Lemma loop_throttle_after_processed_witness :
  (path_exists (row_out Demo.dir Demo.tree) Demo.rock_done = true ->
   log (snd (loop Demo.dir Demo.provider_bytes Demo.fetch_down (ANCHOR_PATH Demo.dir)
                  ([Demo.rock] ++ [Demo.tree]) Demo.rock_done)) = log Demo.rock_done) /\
  (path_exists (row_out Demo.dir Demo.tree) Demo.rock_done = false ->
   exists mid data,
     log (snd (loop Demo.dir Demo.provider_bytes Demo.fetch_down (ANCHOR_PATH Demo.dir)
                    ([Demo.rock] ++ [Demo.tree]) Demo.rock_done))
     = log Demo.rock_done ++ mid ++
       [EWrite (row_out Demo.dir Demo.tree) data; ESleep RATE_LIMIT_MS] /\
     Forall (fun e => is_sleep e = false) mid).
Proof.
  apply (loop_throttle_after_processed Demo.dir Demo.provider_bytes Demo.fetch_down
           (ANCHOR_PATH Demo.dir) [Demo.rock] Demo.tree Demo.rock_done (row_out Demo.dir Demo.rock)
           Demo.rock_done (row_out Demo.dir Demo.tree));
    vm_compute; reflexivity.
Defined.

(** ** The PNG -> WebP converter *)

Lemma file_log_cases {image} (pil_open : bytes -> string + image)
    (pil_save : image -> string -> Z -> save_outcome) s fp :
  (convert_error pil_open pil_save s fp = None ->
   exists b img data,
     fs s !! fp = Some b /\ pil_open b = inr img /\
     pil_save img "webp" QUALITY = SaveOk data /\
     file_log pil_open pil_save s fp =
       [EWrite (webp_path_of fp) data;
        EPrint ("Converted " ++ fp ++ " to " ++ webp_path_of fp)]) /\
  (forall e, convert_error pil_open pil_save s fp = Some e ->
   file_log pil_open pil_save s fp = [EPrint ("Could not convert " ++ fp ++ ": " ++ e)]).
Proof.
  unfold convert_error, file_log, convert_file, convert_body; simpl.
  repeat (case_match; simplify_eq/=); split; intros; simplify_eq/=; eauto 10.
Qed.

(** C9: the walk never aborts; every file whose name ends in ".png" (in
    any case) is handled in walk order, from the file system the walk
    started with; a successful conversion writes the WebP encoding at
    quality [QUALITY] (85) to [root + ".webp"], a sibling of the source,
    while a failure is printed and the walk goes on; no source (no path
    outside ".webp") is modified. *)
Theorem optimize_images_converts_each_png {image} (pil_open : bytes -> string + image)
    (pil_save : image -> string -> Z -> save_outcome) walk s :
  let '(r, s') := optimize_images image pil_open pil_save walk s in
  r = Ok tt /\
  (forall p, endswith ".webp" p = false -> fs s' !! p = fs s !! p) /\
  log s' = log s ++ List.concat (map (file_log pil_open pil_save s) (png_files walk)) /\
  (forall fp, In fp (png_files walk) ->
     fs s' !! fp = fs s !! fp /\
     (exists root ext, fp = (root ++ ext)%string /\ webp_path_of fp = (root ++ ".webp")%string /\
                       ~ In "/"%char (list_ascii_of_string ext)) /\
     (convert_error pil_open pil_save s fp = None ->
      exists b img data,
        fs s !! fp = Some b /\ pil_open b = inr img /\
        pil_save img "webp" QUALITY = SaveOk data /\
        file_log pil_open pil_save s fp =
          [EWrite (webp_path_of fp) data;
           EPrint ("Converted " ++ fp ++ " to " ++ webp_path_of fp)]) /\
     (forall e, convert_error pil_open pil_save s fp = Some e ->
      file_log pil_open pil_save s fp = [EPrint ("Could not convert " ++ fp ++ ": " ++ e)])).
Proof.
  pose proof (optimize_images_effect pil_open pil_save walk s) as He.
  destruct (optimize_images image pil_open pil_save walk s) as [r s'].
  destruct He as (-> & _ & Hfs & Hlog).
  split; [done |]. split; [done |]. split; [done |].
  intros fp Hin. split; [by apply Hfs, (png_files_not_webp walk) |].
  split.
  - destruct (splitext fp) as [root ext] eqn:Hsp.
    exists root, ext. pose proof (splitext_sibling _ _ _ Hsp) as [Hfp Hext].
    unfold webp_path_of. rewrite Hsp. auto.
  - apply file_log_cases.
Qed.

(** C10: the converter has no completion check.  Two runs over the same
    walk, from file systems that agree on every path outside ".webp" (in
    particular on all sources) but may differ on existing ".webp" files,
    perform exactly the same events; every source is opened and converted
    again, and a successful conversion writes its target whatever was
    there before. *)
Theorem optimize_images_no_completion_check {image} (pil_open : bytes -> string + image)
    (pil_save : image -> string -> Z -> save_outcome) walk s1 s2 :
  dirs s1 = dirs s2 ->
  (forall p, endswith ".webp" p = false -> fs s1 !! p = fs s2 !! p) ->
  exists L,
    log (snd (optimize_images image pil_open pil_save walk s1)) = log s1 ++ L /\
    log (snd (optimize_images image pil_open pil_save walk s2)) = log s2 ++ L /\
    (forall fp, In fp (png_files walk) -> convert_error pil_open pil_save s1 fp = None ->
     exists data, In (EWrite (webp_path_of fp) data) L).
Proof.
  intros Hd Hfs.
  pose proof (optimize_images_effect pil_open pil_save walk s1) as He1.
  pose proof (optimize_images_effect pil_open pil_save walk s2) as He2.
  destruct (optimize_images image pil_open pil_save walk s1) as [r1 s1'].
  destruct (optimize_images image pil_open pil_save walk s2) as [r2 s2'].
  destruct He1 as (_ & _ & _ & Hl1). destruct He2 as (_ & _ & _ & Hl2).
  exists (List.concat (map (file_log pil_open pil_save s1) (png_files walk))). simpl.
  split; [done |]. split.
  - rewrite Hl2, (file_log_after pil_open pil_save s1 s2); [done | done | | apply png_files_not_webp].
    intros p Hp. by rewrite Hfs.
  - intros fp Hin Hok.
    destruct ((proj1 (file_log_cases pil_open pil_save s1 fp)) Hok)
      as (b & img & data & _ & _ & _ & Hlog).
    exists data. apply in_concat. exists (file_log pil_open pil_save s1 fp).
    split; [by apply in_map | rewrite Hlog; by left].
Qed.

Lemma optimize_images_no_completion_check_witness :
  exists L,
    log (snd (optimize_images bytes Demo.pil_open Demo.pil_save Demo.walk Demo.pngs))
      = log Demo.pngs ++ L /\
    log (snd (optimize_images bytes Demo.pil_open Demo.pil_save Demo.walk Demo.pngs_converted))
      = log Demo.pngs_converted ++ L /\
    (forall fp, In fp (png_files Demo.walk) ->
     convert_error Demo.pil_open Demo.pil_save Demo.pngs fp = None ->
     exists data, In (EWrite (webp_path_of fp) data) L).
Proof.
  apply optimize_images_no_completion_check; [reflexivity |].
  intros p Hp. unfold Demo.pngs_converted. cbn [fs]. symmetry.
  apply lookup_insert_ne. intros <-. vm_compute in Hp. discriminate.
Defined.

(* ================================================================== *)
(** * Further properties of the code *)

(** ** File-system effects of the generator *)

Lemma writes_app l1 l2 : writes (l1 ++ l2) = writes l1 ++ writes l2.
Proof. apply omap_app. Qed.

Lemma path_exists_grow p s s' :
  (forall q, is_Some (fs s !! q) -> is_Some (fs s' !! q)) -> dirs s ⊆ dirs s' ->
  path_exists p s = true -> path_exists p s' = true.
Proof.
  unfold path_exists. intros Hfs Hd. rewrite !orb_true_iff, !bool_decide_eq_true.
  intros [H|H]; [left; by apply Hfs | right; set_solver].
Qed.

Lemma path_exists_insert p b s :
  path_exists p (mkState (<[p:=b]> (fs s)) (dirs s) (log s ++ [EWrite p b])) = true.
Proof.
  unfold path_exists. simpl. apply orb_true_iff. left.
  apply bool_decide_eq_true. rewrite lookup_insert_eq. by eexists.
Qed.

Lemma step_writes SCRIPT_DIR provider fetch p r s res s' :
  step SCRIPT_DIR provider fetch p r s = (res, s') ->
  dirs s' = dirs s /\
  ((fs s' = fs s /\ writes (log s') = writes (log s)) \/
   (path_exists (row_out SCRIPT_DIR r) s = false /\
    exists b, fs s' = <[row_out SCRIPT_DIR r := b]> (fs s) /\
      writes (log s') = writes (log s) ++ [row_out SCRIPT_DIR r] /\
      (res = Ok (row_out SCRIPT_DIR r) /\ path_exists (row_out SCRIPT_DIR r) s' = true))).
Proof.
  unfold step, write_bytes, row_out. unfold_M. intros H.
  destruct (path_exists _ s) eqn:He; [simplify_eq; auto |].
  destruct (run_flux provider fetch (strip (prompt r)) p s) as [rf s2] eqn:Hr.
  apply run_flux_effect in Hr as (Hfs & Hd & Hlog).
  assert (Hw : writes (log s2) = writes (log s)).
  { destruct Hlog as [-> | [-> | [u ->]]]; rewrite ?writes_app; simpl;
      rewrite ?app_nil_r; done. }
  destruct rf as [b|e]; [| simplify_eq; auto].
  destruct (bool_decide _); [simplify_eq; auto |]. simplify_eq/=.
  split; [done |]. right. split; [done |]. exists b.
  rewrite Hfs. split; [done |]. rewrite !writes_app, Hw. simpl. split; [by rewrite app_nil_r |].
  split; [done |]. unfold path_exists. simpl. apply orb_true_iff. left.
  apply bool_decide_eq_true. rewrite lookup_insert_eq. by eexists.
Qed.

Lemma loop_fs_effect SCRIPT_DIR provider fetch rows : forall p s res s',
  loop SCRIPT_DIR provider fetch p rows s = (res, s') ->
  dirs s' = dirs s /\
  (forall q, is_Some (fs s !! q) -> fs s' !! q = fs s !! q) /\
  (forall q, (forall r, In r rows -> q <> row_out SCRIPT_DIR r) -> fs s' !! q = fs s !! q) /\
  exists W, writes (log s') = writes (log s) ++ W /\ NoDup W /\
    (forall w, In w W -> path_exists w s = false).
Proof.
  induction rows as [|r rs IH]; intros p s res s' H; simpl in H; unfold_M.
  - simplify_eq. split; [done |]. split; [done |]. split; [done |].
    exists []. rewrite app_nil_r. split; [done |]. split; [constructor | done].
  - destruct (step SCRIPT_DIR provider fetch p r s) as [[q1|e] s1] eqn:Hs.
    + apply step_writes in Hs as (Hd1 & Hst).
      destruct (IH _ _ _ _ H) as (Hd2 & Hkeep2 & Hout2 & W & HW & Hnd & Hnew).
      assert (Hgrow : forall q, is_Some (fs s !! q) -> fs s1 !! q = fs s !! q).
      { intros q Hq. destruct Hst as [[-> _] | (Hne & b & -> & _)]; [done |].
        rewrite lookup_insert_ne; [done |]. intros <-.
        unfold path_exists in Hne. apply orb_false_iff in Hne as [Hn _].
        apply bool_decide_eq_false in Hn. contradiction. }
      assert (Hmono : forall w, path_exists w s1 = false -> path_exists w s = false).
      { intros w Hw. destruct (path_exists w s) eqn:E; [| done].
        rewrite <- Hw. symmetry. eapply path_exists_grow; [| | exact E].
        - intros q Hq. by rewrite Hgrow.
        - by rewrite Hd1. }
      split; [congruence |]. split.
      { intros q Hq. rewrite Hkeep2; [by apply Hgrow |]. by rewrite Hgrow. }
      split.
      { intros q Hq. rewrite Hout2; [| intros r' Hr'; apply Hq; by right].
        destruct Hst as [[-> _] | (_ & b & -> & _)]; [done |].
        apply lookup_insert_ne. intros Heq. apply (Hq r); [by left | done]. }
      destruct Hst as [[_ Hw1] | (Hne & b & _ & Hw1 & _ & Hex)].
      * exists W. rewrite HW, Hw1. split; [done |]. split; [done |].
        intros w Hw. by apply Hmono, Hnew.
      * exists (row_out SCRIPT_DIR r :: W). rewrite HW, Hw1, <- app_assoc.
        split; [done |]. split.
        -- constructor; [| done]. intros Hin%list_elem_of_In%Hnew. congruence.
        -- intros w [<- | Hw]; [done |]. by apply Hmono, Hnew.
    + simplify_eq. apply step_writes in Hs as (Hd1 & Hst). split; [done |].
      destruct Hst as [[Hfs Hw1] | (Hne & b & Hfs & Hw1 & Hres & _)]; [| discriminate].
      rewrite Hfs. split; [done |]. split; [done |].
      exists []. rewrite app_nil_r. split; [done |]. split; [constructor | done].
Qed.

Lemma step_ok_exists SCRIPT_DIR provider fetch p r s q s' :
  step SCRIPT_DIR provider fetch p r s = (Ok q, s') ->
  q = row_out SCRIPT_DIR r /\ path_exists (row_out SCRIPT_DIR r) s' = true.
Proof.
  unfold step, write_bytes, row_out. unfold_M. intros H.
  destruct (path_exists _ s) eqn:He; [by simplify_eq |].
  destruct (run_flux provider fetch (strip (prompt r)) p s) as [[b|e] s2] eqn:Hr;
    [| discriminate].
  destruct (bool_decide _); [discriminate |]. simplify_eq/=. split; [done |].
  unfold path_exists. simpl. apply orb_true_iff. left.
  apply bool_decide_eq_true. rewrite lookup_insert_eq. by eexists.
Qed.

Lemma loop_ok_outputs_exist SCRIPT_DIR provider fetch rows : forall p s q s',
  loop SCRIPT_DIR provider fetch p rows s = (Ok q, s') ->
  forall r, In r rows -> path_exists (row_out SCRIPT_DIR r) s' = true.
Proof.
  induction rows as [|r rs IH]; intros p s q s' H r' Hin; [done |].
  simpl in H. unfold_M.
  destruct (step SCRIPT_DIR provider fetch p r s) as [[q1|e] s1] eqn:Hs; [| discriminate].
  destruct Hin as [<- | Hin]; [| by eapply IH].
  apply step_ok_exists in Hs as [_ Hex].
  destruct (loop_fs_effect _ _ _ _ _ _ _ _ H) as (Hd & Hkeep & _).
  eapply path_exists_grow; [| | exact Hex].
  - intros x Hx. by rewrite Hkeep.
  - by rewrite Hd.
Qed.

Lemma main_write_cases SCRIPT_DIR provider fetch rows s res s' :
  main SCRIPT_DIR provider fetch rows s = (res, s') ->
  (fs s' = fs s /\ writes (log s') = writes (log s) /\ res <> Ok tt) \/
  exists s1 res1 s2,
    fs s1 = fs s /\ writes (log s1) = writes (log s) /\ dirs s ⊆ dirs s1 /\
    OUT_DIR SCRIPT_DIR ∈ dirs s1 /\
    loop SCRIPT_DIR provider fetch (ANCHOR_PATH SCRIPT_DIR) rows s1 = (res1, s2) /\
    fs s' = fs s2 /\ dirs s' = dirs s2 /\ writes (log s') = writes (log s2) /\
    (res = Ok tt -> exists q, res1 = Ok q).
Proof.
  unfold main, mkdir_exist_ok. unfold_M. intros H.
  destruct (path_exists (ANCHOR_PATH SCRIPT_DIR) s); simpl in H; [| simplify_eq; by left].
  destruct (bool_decide (is_Some (fs s !! OUT_DIR SCRIPT_DIR))); [simplify_eq; by left |].
  destruct (bool_decide (OUT_DIR SCRIPT_DIR ∈ dirs s)) eqn:Hod.
  - destruct rows as [|r rs]; [simplify_eq; by left |].
    destruct (loop SCRIPT_DIR provider fetch (ANCHOR_PATH SCRIPT_DIR) (r :: rs) s)
      as [[q|e] s2] eqn:Hl; simplify_eq/=.
    + right. exists s, (Ok q), s2. rewrite writes_app. simpl. rewrite app_nil_r.
      apply bool_decide_eq_true in Hod. repeat split; eauto.
    + right. exists s, (Err e), s'. apply bool_decide_eq_true in Hod.
      repeat split; auto. discriminate.
  - destruct rows as [|r rs]; [simplify_eq; left; repeat split; [| discriminate];
      simpl; by rewrite writes_app, app_nil_r |].
    set (s1 := mkState (fs s) ({[OUT_DIR SCRIPT_DIR]} ∪ dirs s)
                 (log s ++ [EMkdir (OUT_DIR SCRIPT_DIR)])) in H.
    assert (Hw1 : writes (log s1) = writes (log s)).
    { simpl. by rewrite writes_app, app_nil_r. }
    destruct (loop SCRIPT_DIR provider fetch (ANCHOR_PATH SCRIPT_DIR) (r :: rs) s1)
      as [[q|e] s2] eqn:Hl; simplify_eq/=.
    + right. exists s1, (Ok q), s2. rewrite writes_app. simpl. rewrite app_nil_r.
      repeat split; eauto; simpl; set_solver.
    + right. exists s1, (Err e), s'. repeat split; auto; simpl; try set_solver;
        discriminate.
Qed.

Lemma sorted_lt_length (ks : list nat) n :
  Sorted lt ks -> Forall (fun k => k < n) ks -> List.length ks <= n.
Proof.
  intros Hs Hb. apply Sorted_StronglySorted in Hs; [| intros ???; lia].
  assert (Hnd : List.NoDup ks).
  { clear Hb. induction Hs as [|k ks' Hs IH Hall]; [constructor |]. constructor; [| exact IH].
    intros Hin. rewrite List.Forall_forall in Hall.
    specialize (Hall k Hin). lia. }
  rewrite <- (length_seq n 0). apply List.NoDup_incl_length; [exact Hnd |].
  intros k Hk. apply in_seq. rewrite List.Forall_forall in Hb.
  specialize (Hb k Hk). lia.
Qed.

(** X1: a run of [main] never modifies a file that existed before it
    started: an existing output is skipped, and every other write goes to
    a path that did not exist, so the anchor and earlier outputs keep
    their contents, whatever the outcome of the run. *)
Theorem main_keeps_existing_files SCRIPT_DIR provider fetch rows s res s' q :
  main SCRIPT_DIR provider fetch rows s = (res, s') ->
  is_Some (fs s !! q) -> fs s' !! q = fs s !! q.
Proof.
  intros H Hq. apply main_write_cases in H as [(-> & _) | H]; [done |].
  destruct H as (s1 & res1 & s2 & Hfs1 & _ & _ & _ & Hl & Hfs' & _).
  apply loop_fs_effect in Hl as (_ & Hkeep & _). rewrite Hfs', Hkeep; [by rewrite Hfs1 |].
  by rewrite Hfs1.
Qed.

Lemma main_keeps_existing_files_witness :
  let '(res, s') := main Demo.dir Demo.provider_bytes Demo.fetch_down
                         [Demo.tree; Demo.rock] Demo.rock_done in
  fs s' !! "d/generated/rock.png" = fs Demo.rock_done !! "d/generated/rock.png".
Proof.
  exact (main_keeps_existing_files Demo.dir Demo.provider_bytes Demo.fetch_down
           [Demo.tree; Demo.rock] Demo.rock_done
           (fst (main Demo.dir Demo.provider_bytes Demo.fetch_down
                      [Demo.tree; Demo.rock] Demo.rock_done))
           (snd (main Demo.dir Demo.provider_bytes Demo.fetch_down
                      [Demo.tree; Demo.rock] Demo.rock_done))
           "d/generated/rock.png" eq_refl (ex_intro _ [Byte.x02] eq_refl)).
Defined.

(** X2: [main] writes files only at the output paths
    [OUT_DIR/<stripped filename>.png] of the rows it is given: every
    other path keeps its contents. *)
Theorem main_writes_only_row_outputs SCRIPT_DIR provider fetch rows s res s' q :
  main SCRIPT_DIR provider fetch rows s = (res, s') ->
  (forall r, In r rows -> q <> row_out SCRIPT_DIR r) -> fs s' !! q = fs s !! q.
Proof.
  intros H Hq. apply main_write_cases in H as [(-> & _) | H]; [done |].
  destruct H as (s1 & res1 & s2 & Hfs1 & _ & _ & _ & Hl & Hfs' & _).
  apply loop_fs_effect in Hl as (_ & _ & Hout & _). by rewrite Hfs', Hout, Hfs1.
Qed.

Lemma main_writes_only_row_outputs_witness :
  let '(res, s') := main Demo.dir Demo.provider_bytes Demo.fetch_down
                         [Demo.rock; Demo.tree] Demo.fresh in
  fs s' !! "d/generated/other.png" = fs Demo.fresh !! "d/generated/other.png".
Proof.
  refine (main_writes_only_row_outputs Demo.dir Demo.provider_bytes Demo.fetch_down
            [Demo.rock; Demo.tree] Demo.fresh
            (fst (main Demo.dir Demo.provider_bytes Demo.fetch_down
                       [Demo.rock; Demo.tree] Demo.fresh))
            (snd (main Demo.dir Demo.provider_bytes Demo.fetch_down
                       [Demo.rock; Demo.tree] Demo.fresh))
            "d/generated/other.png" eq_refl _).
  intros r [<- | [<- | []]]; vm_compute; discriminate.
Defined.

(** X3: when [main] completes, the output directory exists and every
    row's output file exists, generated in this run or found on disk. *)
Theorem main_success_outputs_exist SCRIPT_DIR provider fetch rows s s' :
  main SCRIPT_DIR provider fetch rows s = (Ok tt, s') ->
  OUT_DIR SCRIPT_DIR ∈ dirs s' /\
  forall r, In r rows -> path_exists (row_out SCRIPT_DIR r) s' = true.
Proof.
  intros H. apply main_write_cases in H as [(_ & _ & Hne) | H]; [done |].
  destruct H as (s1 & res1 & s2 & _ & _ & _ & Hod & Hl & Hfs' & Hd' & _ & Hok).
  destruct (Hok eq_refl) as [q ->].
  destruct (loop_fs_effect _ _ _ _ _ _ _ _ Hl) as (Hd2 & _).
  split; [by rewrite Hd', Hd2 |].
  intros r Hr. unfold path_exists. rewrite Hfs', Hd'. apply (loop_ok_outputs_exist _ _ _ _ _ _ _ _ Hl _ Hr).
Qed.

Lemma main_success_outputs_exist_witness :
  OUT_DIR Demo.dir ∈ dirs (snd (main Demo.dir Demo.provider_bytes Demo.fetch_down
                                     [Demo.rock; Demo.tree] Demo.fresh)) /\
  forall r, In r [Demo.rock; Demo.tree] ->
    path_exists (row_out Demo.dir r) (snd (main Demo.dir Demo.provider_bytes Demo.fetch_down
                                               [Demo.rock; Demo.tree] Demo.fresh)) = true.
Proof.
  apply (main_success_outputs_exist Demo.dir Demo.provider_bytes Demo.fetch_down
           [Demo.rock; Demo.tree] Demo.fresh).
  vm_compute. reflexivity.
Defined.

(** X4: within one run, [main] writes each path at most once, and only
    paths that did not exist when the run started; a row repeated in the
    CSV is generated once and skipped afterwards. *)
Theorem main_writes_each_path_once SCRIPT_DIR provider fetch rows s res s' :
  main SCRIPT_DIR provider fetch rows s = (res, s') ->
  exists W, writes (log s') = writes (log s) ++ W /\ NoDup W /\
    forall w, In w W -> path_exists w s = false.
Proof.
  intros H. apply main_write_cases in H as [(_ & -> & _) | H].
  { exists []. rewrite app_nil_r. split; [done |]. split; [constructor | done]. }
  destruct H as (s1 & res1 & s2 & Hfs1 & Hw1 & Hd1 & _ & Hl & _ & _ & Hw' & _).
  destruct (loop_fs_effect _ _ _ _ _ _ _ _ Hl) as (_ & _ & _ & W & HW & Hnd & Hnew).
  exists W. rewrite Hw', HW, Hw1. split; [done |]. split; [done |].
  intros w Hw. specialize (Hnew w Hw). destruct (path_exists w s) eqn:E; [| done].
  rewrite <- Hnew. symmetry. eapply path_exists_grow; [| exact Hd1 | exact E].
  intros x Hx. by rewrite Hfs1.
Qed.

Lemma main_writes_each_path_once_witness :
  let '(res, s') := main Demo.dir Demo.provider_bytes Demo.fetch_down
                         [Demo.rock; Demo.tree; Demo.rock] Demo.fresh in
  exists W, writes (log s') = writes (log Demo.fresh) ++ W /\ NoDup W /\
    forall w, In w W -> path_exists w Demo.fresh = false.
Proof.
  exact (main_writes_each_path_once Demo.dir Demo.provider_bytes Demo.fetch_down
           [Demo.rock; Demo.tree; Demo.rock] Demo.fresh
           (fst (main Demo.dir Demo.provider_bytes Demo.fetch_down
                      [Demo.rock; Demo.tree; Demo.rock] Demo.fresh))
           (snd (main Demo.dir Demo.provider_bytes Demo.fetch_down
                      [Demo.rock; Demo.tree; Demo.rock] Demo.fresh)) eq_refl).
Defined.

(** X5: [main] makes at most one provider call per CSV row. *)
Theorem main_calls_at_most_rows SCRIPT_DIR provider fetch rows s res s' :
  main SCRIPT_DIR provider fetch rows s = (res, s') ->
  List.length (calls (log s')) <= List.length (calls (log s)) + List.length rows.
Proof.
  intros H. apply main_calls_cases in H as [[-> _] | H]; [lia |].
  destruct H as (s1 & res1 & s2 & _ & Hc1 & _ & _ & Hl & Hc' & _).
  apply loop_calls in Hl as (ks & Hs & Hb & Hc2).
  rewrite Hc', Hc2, Hc1, length_app, length_map.
  pose proof (sorted_lt_length ks _ Hs Hb). lia.
Qed.

Lemma main_calls_at_most_rows_witness :
  let '(res, s') := main Demo.dir Demo.provider_bytes Demo.fetch_down
                         [Demo.rock; Demo.tree; Demo.rock] Demo.fresh in
  List.length (calls (log s')) <= List.length (calls (log Demo.fresh)) + 3.
Proof.
  exact (main_calls_at_most_rows Demo.dir Demo.provider_bytes Demo.fetch_down
           [Demo.rock; Demo.tree; Demo.rock] Demo.fresh
           (fst (main Demo.dir Demo.provider_bytes Demo.fetch_down
                      [Demo.rock; Demo.tree; Demo.rock] Demo.fresh))
           (snd (main Demo.dir Demo.provider_bytes Demo.fetch_down
                      [Demo.rock; Demo.tree; Demo.rock] Demo.fresh)) eq_refl).
Defined.

(** ** Whitespace in the CSV fields *)

Definition head_not_space (l : list ascii) : Prop :=
  match l with [] => True | c :: _ => is_space c = false end.

Lemma lstrip_l_head l : head_not_space (lstrip_l l).
Proof. induction l as [|c l IH]; [done |]. simpl. by destruct (is_space c) eqn:E. Qed.

Lemma lstrip_l_id l : head_not_space l -> lstrip_l l = l.
Proof. destruct l as [|c l]; [done |]. simpl. by intros ->. Qed.

Lemma lstrip_l_suffix l : exists pre, l = pre ++ lstrip_l l.
Proof.
  induction l as [|c l [pre IH]]; [by exists [] |]. simpl.
  destruct (is_space c); [exists (c :: pre); by rewrite IH at 1 | by exists []].
Qed.

Lemma strip_idem s : strip (strip s) = strip s.
Proof.
  unfold strip. rewrite list_ascii_of_string_of_list_ascii.
  set (A := lstrip_l (list_ascii_of_string s)).
  set (B := lstrip_l (rev A)).
  assert (HB : lstrip_l (rev B) = rev B).
  { apply lstrip_l_id. destruct (lstrip_l_suffix (rev A)) as [pre Hpre].
    fold B in Hpre. pose proof (lstrip_l_head (list_ascii_of_string s)) as HA.
    fold A in HA. apply (f_equal (@rev ascii)) in Hpre.
    rewrite rev_involutive, rev_app_distr in Hpre. rewrite Hpre in HA.
    destruct (rev B); [done | exact HA]. }
  rewrite HB, rev_involutive, lstrip_l_id; [done |]. apply lstrip_l_head.
Qed.

Lemma step_trim SCRIPT_DIR provider fetch p r :
  step SCRIPT_DIR provider fetch p (trim_row r) = step SCRIPT_DIR provider fetch p r.
Proof. unfold step, trim_row. simpl. by rewrite !strip_idem. Qed.

Lemma loop_trim SCRIPT_DIR provider fetch rows : forall p s,
  loop SCRIPT_DIR provider fetch p (map trim_row rows) s = loop SCRIPT_DIR provider fetch p rows s.
Proof.
  induction rows as [|r rs IH]; intros p s; [done |]. simpl.
  rewrite step_trim. unfold bindM.
  destruct (step SCRIPT_DIR provider fetch p r s) as [[q|e] s1]; [by rewrite IH | done].
Qed.

(** X6: [main] strips both CSV fields before using them, so surrounding
    whitespace in the CSV changes nothing: running on the rows with their
    fields already stripped gives the same result, the same files and the
    same log. *)
Theorem main_ignores_field_whitespace SCRIPT_DIR provider fetch rows s :
  main SCRIPT_DIR provider fetch (map trim_row rows) s = main SCRIPT_DIR provider fetch rows s.
Proof.
  unfold main. unfold_M. destruct (path_exists (ANCHOR_PATH SCRIPT_DIR) s); [| done].
  simpl. destruct (mkdir_exist_ok (OUT_DIR SCRIPT_DIR) s) as [[] s1]; [| done].
  destruct rows as [|r rs]; [done |].
  pose proof (loop_trim SCRIPT_DIR provider fetch (r :: rs) (ANCHOR_PATH SCRIPT_DIR) s1) as E.
  simpl in E |- *. by rewrite E.
Qed.

(** ** The converter *)

Lemma rfind_aux_found c l : forall i best,
  rfind_aux c l i best = best \/
  exists j, rfind_aux c l i best = Z.of_nat (i + j) /\ l !! j = Some c.
Proof.
  induction l as [|x l IH]; intros i best; simpl; [by left |].
  destruct (IH (S i) (if Ascii.eqb x c then Z.of_nat i else best))
    as [-> | (j & -> & Hj)].
  - destruct (Ascii.eqb x c) eqn:E; [| by left].
    right. exists 0. apply Ascii.eqb_eq in E as ->. split; [f_equal; lia | done].
  - right. exists (S j). split; [f_equal; lia | done].
Qed.

(** X7: [os.path.splitext] is a split of its argument: root and extension
    concatenate back to the path, and the extension is either empty or a
    dot followed by text holding neither a separator nor another dot, so
    it is the part after the last dot. *)
Theorem splitext_round_trip p root ext :
  splitext p = (root, ext) ->
  p = (root ++ ext)%string /\ ~ In "/"%char (list_ascii_of_string ext) /\
  (ext = ""%string \/
   exists t, ext = String "."%char t /\ ~ In "."%char (list_ascii_of_string t)).
Proof.
  intros H. destruct (splitext_sibling p root ext H) as [Hp Hs].
  split; [done |]. split; [done |].
  revert H. unfold splitext.
  set (l := list_ascii_of_string p).
  set (si := rfind "/"%char l). set (di := rfind "."%char l).
  destruct (_ && _) eqn:Hc; intros H; injection H as <- <-; [| by left].
  right. apply andb_true_iff in Hc as [Hlt _]. apply Z.ltb_lt in Hlt.
  assert (Hsi : (-1 <= si)%Z) by (apply rfind_aux_ge; lia).
  destruct (rfind_aux_found "."%char l 0 (-1)) as [Hd | (j & Hd & Hj)];
    change (rfind_aux "."%char l 0 (-1)) with di in Hd; [lia |].
  rewrite Hd, Nat2Z.id. simpl in Hd |- *.
  rewrite (drop_S _ _ _ Hj). exists (string_of_list_ascii (drop (S j) l)).
  rewrite list_ascii_of_string_of_list_ascii. split; [done |].
  intros Hin. apply list_elem_of_In, list_elem_of_lookup in Hin as [k Hk].
  rewrite lookup_drop in Hk.
  pose proof (rfind_aux_last "."%char l 0 (-1) (S j + k) ltac:(lia) Hk) as Hge.
  change (rfind_aux "."%char l 0 (-1)) with di in Hge. lia.
Qed.

Lemma splitext_round_trip_witness :
  "img/x.tar.png"%string = ("img/x.tar" ++ ".png")%string /\
  ~ In "/"%char (list_ascii_of_string ".png") /\
  (".png"%string = ""%string \/
   exists t, ".png"%string = String "."%char t /\ ~ In "."%char (list_ascii_of_string t)).
Proof.
  apply (splitext_round_trip "img/x.tar.png"). vm_compute. reflexivity.
Defined.

(** X8: the converter's outputs are never its sources: a target path
    [root + ".webp"] never ends in ".png", in any case, so a later walk
    over the same tree does not pick up the WebP files. *)
Theorem webp_target_not_png fp : endswith ".png" (lower (webp_path_of fp)) = false.
Proof.
  destruct (endswith ".png" (lower (webp_path_of fp))) eqn:E; [| done].
  apply png_not_webp in E. by rewrite webp_path_of_endswith in E.
Qed.

Lemma prints_app l1 l2 : prints (l1 ++ l2) = prints l1 ++ prints l2.
Proof. apply omap_app. Qed.

Lemma file_log_prints {image} (pil_open : bytes -> string + image)
    (pil_save : image -> string -> Z -> save_outcome) s fp :
  prints (file_log pil_open pil_save s fp) = [report_line pil_open pil_save s fp].
Proof.
  destruct (file_log_cases pil_open pil_save s fp) as [Hok Herr].
  unfold report_line. destruct (convert_error pil_open pil_save s fp) as [e|] eqn:E.
  - by rewrite (Herr e eq_refl).
  - destruct (Hok eq_refl) as (b & img & data & _ & _ & _ & ->). done.
Qed.

(** X9: [optimize_images] prints exactly one line per PNG source, in
    walk order: "Converted <src> to <target>" when the conversion of that
    source succeeds and "Could not convert <src>: <error>" when it fails;
    other files print nothing. *)
Theorem optimize_images_prints {image} (pil_open : bytes -> string + image)
    (pil_save : image -> string -> Z -> save_outcome) walk s :
  prints (log (snd (optimize_images image pil_open pil_save walk s))) =
  prints (log s) ++ map (report_line pil_open pil_save s) (png_files walk).
Proof.
  pose proof (optimize_images_effect pil_open pil_save walk s) as He.
  destruct (optimize_images image pil_open pil_save walk s) as [r s'].
  destruct He as (_ & _ & _ & Hl). simpl. rewrite Hl, prints_app. f_equal.
  clear Hl. induction (png_files walk) as [|fp fps IH]; [done |]. cbn [map List.concat].
  rewrite prints_app, file_log_prints, IH. reflexivity.
Qed.
